(** * Signaling gateway of screen-share-backend: a shallow embedding

    Source: [src/events/events.gateway.ts], class [EventsGateway].  The file
    holds two near-duplicate versions of the class; both are embedded here,
    as [Variant1] (lines 1-172) and [Variant2] (lines 173-322).

    The only state of the class is [rooms : Map<string, Set<string>>].  A
    JavaScript [Map] and [Set] iterate in insertion order, and the order of
    the emitted events depends on it, so both are modelled as insertion
    ordered lists.  Calls on the transport ([client.emit],
    [this.server.to(..).emit], [client.to(..).emit], [client.join]) are
    recorded, in program order, in a trace of effects.  Calls on the logger
    are not observable by any peer and are left out. *)

From Stdlib Require Import String List Bool Arith ZArith Lia.
Import ListNotations.
Open Scope string_scope.
Open Scope list_scope.
#[local] Set Warnings "-register-all".

(** ** JavaScript values *)

(** Values a handler can receive at run time, whatever its TypeScript
    annotation says. *)
Inductive JsValue : Type :=
| JUndefined
| JNull
| JBoolean (b : bool)
| JNumber (z : Z)
| JString (s : string)
| JObject (fields : list (string * JsValue)).

(** [!v] is [negb (truthy v)]. *)
Definition truthy (v : JsValue) : bool :=
  match v with
  | JUndefined | JNull => false
  | JBoolean b => b
  | JNumber z => negb (z =? 0)%Z
  | JString s => negb (s =? "")
  | JObject _ => true
  end.

Definition typeof (v : JsValue) : string :=
  match v with
  | JUndefined => "undefined"
  | JNull => "object"
  | JBoolean _ => "boolean"
  | JNumber _ => "number"
  | JString _ => "string"
  | JObject _ => "object"
  end.

(** ** [Set<string>], in insertion order *)
Module JsSet.

Definition t := list string.

Definition empty : t := [].

Definition has (x : string) (s : t) : bool := existsb (String.eqb x) s.

Definition add (x : string) (s : t) : t :=
  if has x s then s else s ++ [x].

Definition delete (x : string) (s : t) : t :=
  filter (fun y => negb (y =? x)) s.

Definition size (s : t) : nat := length s.

End JsSet.

(** ** [Map<string, V>], in insertion order *)
Module JsMap.

Section Ops.
Context {V : Type}.

Definition t := list (string * V).

Fixpoint get (k : string) (m : t) : option V :=
  match m with
  | [] => None
  | (k', v) :: m' => if k' =? k then Some v else get k m'
  end.

(** [set] on a present key replaces the value and keeps the position of
    the entry; on an absent key it appends. *)
Fixpoint set (k : string) (v : V) (m : t) : t :=
  match m with
  | [] => [(k, v)]
  | (k', v') :: m' =>
      if k' =? k then (k', v) :: m' else (k', v') :: set k v m'
  end.

Fixpoint delete (k : string) (m : t) : t :=
  match m with
  | [] => []
  | (k', v') :: m' =>
      if k' =? k then m' else (k', v') :: delete k m'
  end.

Definition keys (m : t) : list string := map fst m.

End Ops.

Arguments t : clear implicits.

End JsMap.

(** ** The room store and the transport *)

Definition RoomStore := JsMap.t JsSet.t.

Definition MAX_PARTICIPANTS : nat := 2.

(** How an emission is addressed. *)
Inductive Target : Type :=
| ToClient (client : string)            (* client.emit(..) *)
| ServerTo (room : string)              (* this.server.to(room).emit(..) *)
| ClientTo (client : string) (room : string).
                                        (* client.to(room).emit(..): the
                                           channel, the calling socket
                                           excepted *)

Inductive Effect : Type :=
| Emit (target : Target) (event : string) (data : JsValue)
| Join (client : string) (room : string).       (* client.join(room) *)

(** ** The handler monad: room store, effect trace, exceptions *)

Inductive Completion (A : Type) : Type :=
| Normal (a : A)
| Throw (message : string).
Arguments Normal {A} a.
Arguments Throw {A} message.

Definition Handler (A : Type) : Type :=
  RoomStore -> Completion A * RoomStore * list Effect.

Definition ret {A} (a : A) : Handler A := fun rooms => (Normal a, rooms, []).

Definition bind {A B} (m : Handler A) (f : A -> Handler B) : Handler B :=
  fun rooms =>
    match m rooms with
    | (Normal a, rooms', out) =>
        let '(r, rooms'', out') := f a rooms' in (r, rooms'', out ++ out')
    | (Throw e, rooms', out) => (Throw e, rooms', out)
    end.

Definition throw {A} (message : string) : Handler A :=
  fun rooms => (Throw message, rooms, []).

(** [try { body } catch (error) { handler error.message }]: what the body
    did before it threw stays done. *)
Definition try_catch {A} (body : Handler A) (handler : string -> Handler A)
  : Handler A :=
  fun rooms =>
    match body rooms with
    | (Normal a, rooms', out) => (Normal a, rooms', out)
    | (Throw e, rooms', out) =>
        let '(r, rooms'', out') := handler e rooms' in (r, rooms'', out ++ out')
    end.

Definition do_effect (e : Effect) : Handler unit :=
  fun rooms => (Normal tt, rooms, [e]).

Definition rooms_get (k : string) : Handler (option JsSet.t) :=
  fun rooms => (Normal (JsMap.get k rooms), rooms, []).

Definition rooms_set (k : string) (v : JsSet.t) : Handler unit :=
  fun rooms => (Normal tt, JsMap.set k v rooms, []).

Definition rooms_delete (k : string) : Handler unit :=
  fun rooms => (Normal tt, JsMap.delete k rooms, []).

Definition rooms_entries : Handler (list (string * JsSet.t)) :=
  fun rooms => (Normal rooms, rooms, []).

Declare Scope handler_scope.
Delimit Scope handler_scope with handler.
Notation "x <- m ;; k" := (bind m (fun x => k))
  (at level 61, m at next level, right associativity) : handler_scope.
Notation "m ;; k" := (bind m (fun _ => k))
  (at level 61, right associativity) : handler_scope.
Open Scope handler_scope.

(** [xs.forEach(f)] *)
Fixpoint for_each {A} (xs : list A) (f : A -> Handler unit) : Handler unit :=
  match xs with
  | [] => ret tt
  | x :: xs' => f x ;; for_each xs' f
  end.

Definition store_of {A} (r : Completion A * RoomStore * list Effect)
  : RoomStore := snd (fst r).

Definition emitted {A} (r : Completion A * RoomStore * list Effect)
  : list Effect := snd r.

Definition completion {A} (r : Completion A * RoomStore * list Effect)
  : Completion A := fst (fst r).

(** ** What both variants share *)

(** The three relay handlers take a payload [{roomId, <kind>, targetPeerId}];
    [signal] is the field named [offer], [answer] or [candidate]. *)
Record SignalPayload : Type := {
  roomId : JsValue;
  signal : JsValue;
  targetPeerId : string
}.

(** Object literals of the emitted events. *)
Definition peer_data (peerId : string) : JsValue :=
  JObject [("peerId", JString peerId)].

Definition error_data (message : string) : JsValue :=
  JObject [("error", JString message)].

Definition joined_data (roomId : JsValue) : JsValue :=
  JObject [("success", JBoolean true); ("roomId", roomId)].

Definition signal_data (field : string) (payload : JsValue) (senderId : string)
  : JsValue :=
  JObject [(field, payload); ("senderId", JString senderId)].

(** [this.rooms.get(roomId)] for a run-time value: the keys of [rooms] are
    strings, so no other value is found. *)
Definition rooms_lookup (roomId : JsValue) : Handler (option JsSet.t) :=
  match roomId with
  | JString k => rooms_get k
  | _ => ret None
  end.

(** Lines 168-171 and 318-321. *)
Definition validateRoomParticipant (clientId : string) (roomId : JsValue)
  : Handler bool :=
  participants <- rooms_lookup roomId ;;
  ret match participants with
      | Some ps => JsSet.has clientId ps
      | None => false
      end.

(** Lines 25-27 and 198-200: logging only. *)
Definition handleConnection (client : string) : Handler unit := ret tt.

(** ** Variant 1 (lines 1-172) *)
Module Variant1.

(** Lines 34-51.  [this.rooms.forEach] visits every entry once: the
    callback adds no entry and deletes none but the one it is visiting.
    [participants] is the [Set] object held by the map, so
    [participants.delete] changes the value stored under [roomId]. *)
Definition cleanupClient (clientId : string) : Handler unit :=
  entries <- rooms_entries ;;
  for_each entries (fun '(roomId, participants) =>
    if JsSet.has clientId participants then
      let participants := JsSet.delete clientId participants in
      rooms_set roomId participants ;;
      if (JsSet.size participants =? 0)%nat then
        rooms_delete roomId
      else
        for_each participants (fun peerId =>
          do_effect (Emit (ServerTo peerId) "peer-disconnected"
                          (peer_data clientId)))
    else ret tt).

(** Lines 29-32. *)
Definition handleDisconnect (client : string) : Handler unit :=
  cleanupClient client.

(** Lines 53-88.  After the guard of line 56 [roomId] is a string; the
    last branch of the [match] is never taken (see [guard_passes]).
    [participants.add] followed by [this.rooms.set] leaves the enlarged
    set under [roomId], at the entry's old position when there was one. *)
Definition handleJoinRoom (client : string) (roomId : JsValue)
  : Handler unit :=
  try_catch
    (if negb (truthy roomId) || negb (typeof roomId =? "string") then
       throw "Invalid room ID"
     else
       match roomId with
       | JString room =>
           found <- rooms_get room ;;
           let participants :=
             match found with Some ps => ps | None => JsSet.empty end in
           if (MAX_PARTICIPANTS <=? JsSet.size participants)%nat then
             throw "Room is full"
           else
             do_effect (Join client room) ;;
             let participants := JsSet.add client participants in
             rooms_set room participants ;;
             do_effect (Emit (ToClient client) "room-joined"
                             (joined_data roomId)) ;;
             for_each participants (fun peerId =>
               if negb (peerId =? client) then
                 do_effect (Emit (ServerTo peerId) "new-peer"
                                 (peer_data client)) ;;
                 do_effect (Emit (ToClient client) "new-peer"
                                 (peer_data peerId))
               else ret tt)
       | _ => throw "Invalid room ID"
       end)
    (fun message =>
       do_effect (Emit (ToClient client) "room-error" (error_data message))).

(** Lines 90-114. *)
Definition handleOffer (client : string) (payload : SignalPayload)
  : Handler unit :=
  try_catch
    (ok <- validateRoomParticipant client (roomId payload) ;;
     if negb ok then throw "Not a room participant"
     else
       do_effect (Emit (ServerTo (targetPeerId payload)) "offer"
                       (signal_data "offer" (signal payload) client)))
    (fun message =>
       do_effect (Emit (ToClient client) "signaling-error"
                       (error_data message))).

(** Lines 116-140. *)
Definition handleAnswer (client : string) (payload : SignalPayload)
  : Handler unit :=
  try_catch
    (ok <- validateRoomParticipant client (roomId payload) ;;
     if negb ok then throw "Not a room participant"
     else
       do_effect (Emit (ServerTo (targetPeerId payload)) "answer"
                       (signal_data "answer" (signal payload) client)))
    (fun message =>
       do_effect (Emit (ToClient client) "signaling-error"
                       (error_data message))).

(** Lines 142-166. *)
Definition handleIceCandidate (client : string) (payload : SignalPayload)
  : Handler unit :=
  try_catch
    (ok <- validateRoomParticipant client (roomId payload) ;;
     if negb ok then throw "Not a room participant"
     else
       do_effect (Emit (ServerTo (targetPeerId payload)) "ice-candidate"
                       (signal_data "candidate" (signal payload) client)))
    (fun message =>
       do_effect (Emit (ToClient client) "signaling-error"
                       (error_data message))).

End Variant1.

(** ** Variant 2 (lines 173-322) *)
Module Variant2.

(** Lines 207-217: as in variant 1, without the notification branch. *)
Definition cleanupClient (clientId : string) : Handler unit :=
  entries <- rooms_entries ;;
  for_each entries (fun '(roomId, participants) =>
    if JsSet.has clientId participants then
      let participants := JsSet.delete clientId participants in
      rooms_set roomId participants ;;
      if (JsSet.size participants =? 0)%nat then
        rooms_delete roomId
      else ret tt
    else ret tt).

(** Lines 202-205. *)
Definition handleDisconnect (client : string) : Handler unit :=
  cleanupClient client.

(** Lines 219-247. *)
Definition handleJoinRoom (client : string) (roomId : JsValue)
  : Handler unit :=
  try_catch
    (if negb (truthy roomId) || negb (typeof roomId =? "string") then
       throw "Invalid room ID"
     else
       match roomId with
       | JString room =>
           found <- rooms_get room ;;
           let participants :=
             match found with Some ps => ps | None => JsSet.empty end in
           if (MAX_PARTICIPANTS <=? JsSet.size participants)%nat then
             throw "Room is full"
           else
             do_effect (Join client room) ;;
             let participants := JsSet.add client participants in
             rooms_set room participants ;;
             do_effect (Emit (ToClient client) "room-joined"
                             (joined_data roomId)) ;;
             if (1 <? JsSet.size participants)%nat then
               do_effect (Emit (ClientTo client room) "new-peer"
                               (peer_data client))
             else ret tt
       | _ => throw "Invalid room ID"
       end)
    (fun message =>
       do_effect (Emit (ToClient client) "room-error" (error_data message))).

(** Lines 249-270. *)
Definition handleOffer (client : string) (payload : SignalPayload)
  : Handler unit :=
  try_catch
    (ok <- validateRoomParticipant client (roomId payload) ;;
     if negb ok then throw "Not a room participant"
     else
       do_effect (Emit (ClientTo client (targetPeerId payload)) "offer"
                       (signal_data "offer" (signal payload) client)))
    (fun message =>
       do_effect (Emit (ToClient client) "signaling-error"
                       (error_data message))).

(** Lines 272-293. *)
Definition handleAnswer (client : string) (payload : SignalPayload)
  : Handler unit :=
  try_catch
    (ok <- validateRoomParticipant client (roomId payload) ;;
     if negb ok then throw "Not a room participant"
     else
       do_effect (Emit (ClientTo client (targetPeerId payload)) "answer"
                       (signal_data "answer" (signal payload) client)))
    (fun message =>
       do_effect (Emit (ToClient client) "signaling-error"
                       (error_data message))).

(** Lines 295-316. *)
Definition handleIceCandidate (client : string) (payload : SignalPayload)
  : Handler unit :=
  try_catch
    (ok <- validateRoomParticipant client (roomId payload) ;;
     if negb ok then throw "Not a room participant"
     else
       do_effect (Emit (ClientTo client (targetPeerId payload))
                       "ice-candidate"
                       (signal_data "candidate" (signal payload) client)))
    (fun message =>
       do_effect (Emit (ToClient client) "signaling-error"
                       (error_data message))).

End Variant2.

(** ** The gateway as the transport drives it *)

Inductive Variant : Type := V1 | V2.

Inductive RelayKind : Type := Offer | Answer | IceCandidate.

(** The name of the inbound event of a relay, which is also the name of the
    event it sends on, and the field that carries the payload. *)
Definition event_name (k : RelayKind) : string :=
  match k with
  | Offer => "offer"
  | Answer => "answer"
  | IceCandidate => "ice-candidate"
  end.

Definition field_name (k : RelayKind) : string :=
  match k with
  | Offer => "offer"
  | Answer => "answer"
  | IceCandidate => "candidate"
  end.

(** An inbound event: connect, disconnect, or a subscribed message. *)
Inductive Inbound : Type :=
| OnConnect (client : string)
| OnDisconnect (client : string)
| JoinRoom (client : string) (roomId : JsValue)
| Relay (kind : RelayKind) (client : string) (payload : SignalPayload).

Definition handleRelay (v : Variant) (k : RelayKind)
  : string -> SignalPayload -> Handler unit :=
  match v, k with
  | V1, Offer => Variant1.handleOffer
  | V1, Answer => Variant1.handleAnswer
  | V1, IceCandidate => Variant1.handleIceCandidate
  | V2, Offer => Variant2.handleOffer
  | V2, Answer => Variant2.handleAnswer
  | V2, IceCandidate => Variant2.handleIceCandidate
  end.

Definition handleJoinRoom (v : Variant) : string -> JsValue -> Handler unit :=
  match v with
  | V1 => Variant1.handleJoinRoom
  | V2 => Variant2.handleJoinRoom
  end.

Definition handleDisconnect (v : Variant) : string -> Handler unit :=
  match v with
  | V1 => Variant1.handleDisconnect
  | V2 => Variant2.handleDisconnect
  end.

Definition dispatch (v : Variant) (ev : Inbound) : Handler unit :=
  match ev with
  | OnConnect c => handleConnection c
  | OnDisconnect c => handleDisconnect v c
  | JoinRoom c r => handleJoinRoom v c r
  | Relay k c p => handleRelay v k c p
  end.

(** Inbound events are handled one after the other, in arrival order. *)
Definition serve (v : Variant) (evs : list Inbound) : Handler unit :=
  for_each evs (dispatch v).

(** [rooms] is empty when the gateway is constructed (lines 22, 195). *)
Definition initial : RoomStore := [].

Definition rooms_after (v : Variant) (evs : list Inbound) : RoomStore :=
  store_of (serve v evs initial).

(** The members of a room; none when the room is absent. *)
Definition members (room : string) (rooms : RoomStore) : JsSet.t :=
  match JsMap.get room rooms with
  | Some ps => ps
  | None => []
  end.

(** ** Closed forms, stated as functions on the store *)

(** The store [cleanupClient] leaves behind. *)
Fixpoint swept (clientId : string) (rooms : RoomStore) : RoomStore :=
  match rooms with
  | [] => []
  | (room, ps) :: rest =>
      if JsSet.has clientId ps then
        match JsSet.delete clientId ps with
        | [] => swept clientId rest
        | stay => (room, stay) :: swept clientId rest
        end
      else (room, ps) :: swept clientId rest
  end.

(** The events variant 1 emits while it sweeps. *)
Definition farewell (clientId peerId : string) : Effect :=
  Emit (ServerTo peerId) "peer-disconnected" (peer_data clientId).

Fixpoint farewells (clientId : string) (rooms : RoomStore) : list Effect :=
  match rooms with
  | [] => []
  | (room, ps) :: rest =>
      (if JsSet.has clientId ps
       then map (farewell clientId) (JsSet.delete clientId ps)
       else []) ++ farewells clientId rest
  end.

Definition goodbyes (v : Variant) (clientId : string) (rooms : RoomStore)
  : list Effect :=
  match v with
  | V1 => farewells clientId rooms
  | V2 => []
  end.

(** The [new-peer] events of a successful join; [ps] is the member set
    after the add. *)
Definition introductions (v : Variant) (client room : string) (ps : JsSet.t)
  : list Effect :=
  match v with
  | V1 =>
      flat_map (fun peerId =>
                  if negb (peerId =? client) then
                    [Emit (ServerTo peerId) "new-peer" (peer_data client);
                     Emit (ToClient client) "new-peer" (peer_data peerId)]
                  else []) ps
  | V2 =>
      if (1 <? JsSet.size ps)%nat
      then [Emit (ClientTo client room) "new-peer" (peer_data client)]
      else []
  end.

(** How a relay is addressed. *)
Definition relay_target (v : Variant) (client target : string) : Target :=
  match v with
  | V1 => ServerTo target
  | V2 => ClientTo client target
  end.

(** The connection identifier or channel name an emission is sent to. *)
Definition addressee (t : Target) : string :=
  match t with
  | ToClient c => c
  | ServerTo room => room
  | ClientTo _ room => room
  end.

(** [{peerId}] read back from event data. *)
Definition peer_of (data : JsValue) : option string :=
  match data with
  | JObject [(field, JString p)] => if field =? "peerId" then Some p else None
  | _ => None
  end.

(** Is [e] an emission of [event] with data [{peerId: peer}] sent to [dest]? *)
Definition tells (dest event peer : string) (e : Effect) : bool :=
  match e with
  | Emit t name data =>
      (name =? event)
      && match peer_of data with Some p => p =? peer | None => false end
      && (addressee t =? dest)
  | Join _ _ => false
  end.

Definition count_told (dest event peer : string) (out : list Effect) : nat :=
  length (filter (tells dest event peer) out).

(** The rooms that hold both [c] and [d]. *)
Definition shared_rooms (c d : string) (rooms : RoomStore) : RoomStore :=
  filter (fun '(_, ps) => JsSet.has c ps && JsSet.has d ps) rooms.

(** The callback of [this.rooms.forEach] in [cleanupClient]. *)
Definition visit (v : Variant) (c : string) : string * JsSet.t -> Handler unit :=
  match v with
  | V1 => fun '(roomId, participants) =>
      if JsSet.has c participants then
        rooms_set roomId (JsSet.delete c participants) ;;
        if (JsSet.size (JsSet.delete c participants) =? 0)%nat
        then rooms_delete roomId
        else for_each (JsSet.delete c participants) (fun peerId =>
               do_effect (Emit (ServerTo peerId) "peer-disconnected"
                               (peer_data c)))
      else ret tt
  | V2 => fun '(roomId, participants) =>
      if JsSet.has c participants then
        rooms_set roomId (JsSet.delete c participants) ;;
        if (JsSet.size (JsSet.delete c participants) =? 0)%nat
        then rooms_delete roomId
        else ret tt
      else ret tt
  end.

(** The guard of lines 56 and 222. *)
Definition invalid_room_id (roomId : JsValue) : bool :=
  negb (truthy roomId) || negb (typeof roomId =? "string").

Definition room_error (c message : string) : Effect :=
  Emit (ToClient c) "room-error" (error_data message).

Definition signaling_error (c message : string) : Effect :=
  Emit (ToClient c) "signaling-error" (error_data message).

(** [validateRoomParticipant], as a function of the store. *)
Definition is_participant (c : string) (roomId : JsValue) (rooms : RoomStore)
  : bool :=
  match roomId with
  | JString room => JsSet.has c (members room rooms)
  | _ => false
  end.

(** Does an inbound event reach code that writes [rooms]?  Only the
    disconnect and join handlers call [add], [set] or [delete]. *)
Definition writes_rooms (ev : Inbound) : bool :=
  match ev with
  | OnDisconnect _ | JoinRoom _ _ => true
  | OnConnect _ | Relay _ _ _ => false
  end.

(** A member set with [c] filtered out, for every room; the rooms left
    without a member are dropped. *)
Definition without (c : string) (rooms : RoomStore) : RoomStore :=
  filter (fun entry => negb (JsSet.size (snd entry) =? 0)%nat)
         (map (fun entry => (fst entry, JsSet.delete c (snd entry))) rooms).

(** The invariant of the store. *)
Definition room_ok (entry : string * JsSet.t) : Prop :=
  fst entry <> "" /\ NoDup (snd entry) /\ snd entry <> []
  /\ length (snd entry) <= MAX_PARTICIPANTS.

Definition well_formed (rooms : RoomStore) : Prop :=
  NoDup (JsMap.keys rooms) /\ Forall room_ok rooms.

(** ** Lemmas on sets and maps *)

Section SetFacts.

Implicit Types (x y : string) (s : JsSet.t).

Lemma has_In x s : JsSet.has x s = true <-> In x s.
Proof.
  unfold JsSet.has. rewrite existsb_exists. split.
  - intros [y [Hy Heq]]. apply String.eqb_eq in Heq. now subst.
  - intros H. exists x. split; [assumption | apply String.eqb_refl].
Qed.

Lemma has_false x s : JsSet.has x s = false <-> ~ In x s.
Proof.
  rewrite <- has_In. destruct (JsSet.has x s); split; congruence.
Qed.

Lemma In_delete x y s : In y (JsSet.delete x s) <-> In y s /\ y <> x.
Proof.
  unfold JsSet.delete. rewrite filter_In, negb_true_iff, String.eqb_neq.
  tauto.
Qed.

Lemma NoDup_delete x s : NoDup s -> NoDup (JsSet.delete x s).
Proof. apply NoDup_filter. Qed.

Lemma length_delete x s : length (JsSet.delete x s) <= length s.
Proof. apply filter_length_le. Qed.

Lemma NoDup_add x s : NoDup s -> NoDup (JsSet.add x s).
Proof.
  intros H. unfold JsSet.add. destruct (JsSet.has x s) eqn:E; [assumption|].
  apply has_false in E. apply NoDup_app; auto.
  - constructor; [intros [] | constructor].
  - intros y Hy [<-|[]]. auto.
Qed.

Lemma length_add x s : length (JsSet.add x s) <= S (length s).
Proof.
  unfold JsSet.add. destruct (JsSet.has x s); [lia|].
  rewrite length_app. simpl. lia.
Qed.

Lemma add_nonempty x s : JsSet.add x s <> [].
Proof.
  unfold JsSet.add. destruct (JsSet.has x s) eqn:E.
  - intros ->. discriminate.
  - destruct s; discriminate.
Qed.

End SetFacts.

Section MapFacts.

Context {V : Type}.
Implicit Types (k : string) (v : V) (m : JsMap.t V).

Lemma get_In k v m : JsMap.get k m = Some v -> In (k, v) m.
Proof.
  induction m as [|[k' v'] m IH]; simpl; [discriminate|].
  destruct (String.eqb_spec k' k) as [->|Hne].
  - intros [= ->]. now left.
  - intros H. right. auto.
Qed.

Lemma get_None k m : JsMap.get k m = None <-> ~ In k (JsMap.keys m).
Proof.
  induction m as [|[k' v'] m IH]; simpl; [tauto|].
  destruct (String.eqb_spec k' k) as [->|Hne].
  - split; [discriminate | intros H; exfalso; auto].
  - rewrite IH. tauto.
Qed.

Lemma get_set k k' v m :
  JsMap.get k' (JsMap.set k v m) = if k =? k' then Some v else JsMap.get k' m.
Proof.
  induction m as [|[k0 v0] m IH]; simpl.
  - rewrite String.eqb_sym. now destruct (k =? k').
  - destruct (String.eqb_spec k0 k) as [->|Hne]; simpl.
    + now destruct (k =? k').
    + rewrite IH. destruct (String.eqb_spec k0 k') as [->|Hne'];
        [|reflexivity].
      destruct (String.eqb_spec k k') as [->|_]; [contradiction|reflexivity].
Qed.

Lemma set_same k v m : JsMap.get k m = Some v -> JsMap.set k v m = m.
Proof.
  induction m as [|[k0 v0] m IH]; simpl; [discriminate|].
  destruct (k0 =? k).
  - now intros [= ->].
  - intros H. f_equal. auto.
Qed.

Lemma keys_set k v m :
  JsMap.keys (JsMap.set k v m)
  = match JsMap.get k m with
    | Some _ => JsMap.keys m
    | None => JsMap.keys m ++ [k]
    end.
Proof.
  induction m as [|[k0 v0] m IH]; simpl; [reflexivity|].
  destruct (k0 =? k); simpl; [reflexivity|].
  rewrite IH. now destruct (JsMap.get k m).
Qed.

Lemma NoDup_keys_set k v m :
  NoDup (JsMap.keys m) -> NoDup (JsMap.keys (JsMap.set k v m)).
Proof.
  intros H. rewrite keys_set. destruct (JsMap.get k m) eqn:E; [assumption|].
  apply get_None in E. apply NoDup_app; auto.
  - constructor; [intros [] | constructor].
  - intros y Hy [<-|[]]. auto.
Qed.

Lemma Forall_set (P : string * V -> Prop) k v m :
  Forall P m -> P (k, v) -> Forall P (JsMap.set k v m).
Proof.
  intros H Hkv. induction H as [|[k0 v0] m H0 H IH]; simpl.
  - now constructor.
  - destruct (String.eqb_spec k0 k) as [->|Hne]; constructor; auto.
Qed.

Lemma set_middle k v (w : V) (pre rest : JsMap.t V) :
  ~ In k (JsMap.keys pre) ->
  JsMap.set k v (pre ++ (k, w) :: rest) = pre ++ (k, v) :: rest.
Proof.
  induction pre as [|[k0 v0] pre IH]; simpl; intros H.
  - now rewrite String.eqb_refl.
  - destruct (String.eqb_spec k0 k) as [->|Hne]; [exfalso; auto|].
    f_equal. auto.
Qed.

Lemma delete_middle k (w : V) (pre rest : JsMap.t V) :
  ~ In k (JsMap.keys pre) ->
  JsMap.delete k (pre ++ (k, w) :: rest) = pre ++ rest.
Proof.
  induction pre as [|[k0 v0] pre IH]; simpl; intros H.
  - now rewrite String.eqb_refl.
  - destruct (String.eqb_spec k0 k) as [->|Hne]; [exfalso; auto|].
    f_equal. auto.
Qed.

End MapFacts.

(** ** Lemmas on the handler monad *)

Lemma for_each_effects {A} (g : A -> list Effect) (f : A -> Handler unit) xs :
  (forall x rooms, f x rooms = (Normal tt, rooms, g x)) ->
  forall rooms, for_each xs f rooms = (Normal tt, rooms, flat_map g xs).
Proof.
  intros Hf. induction xs as [|x xs IH]; intros rooms; simpl; [reflexivity|].
  unfold bind. now rewrite Hf, IH.
Qed.

Lemma for_each_cons {A} (f : A -> Handler unit) x xs rooms rooms' out :
  f x rooms = (Normal tt, rooms', out) ->
  for_each (x :: xs) f rooms
  = let '(r, rooms'', out') := for_each xs f rooms' in (r, rooms'', out ++ out').
Proof. intros H. simpl. unfold bind. now rewrite H. Qed.

(** ** The closed form of disconnect *)

Lemma farewells_as_flat_map c ps :
  flat_map (fun peerId => [farewell c peerId]) ps = map (farewell c) ps.
Proof. induction ps; simpl; congruence. Qed.

Lemma cleanup_as_visit v c :
  handleDisconnect v c = (entries <- rooms_entries ;; for_each entries (visit v c)).
Proof. destruct v; reflexivity. Qed.

Lemma swept_cons c e rest : swept c (e :: rest) = swept c [e] ++ swept c rest.
Proof.
  destruct e as [room ps]. simpl. destruct (JsSet.has c ps); [|reflexivity].
  now destruct (JsSet.delete c ps).
Qed.

Lemma goodbyes_cons v c e rest :
  goodbyes v c (e :: rest) = goodbyes v c [e] ++ goodbyes v c rest.
Proof.
  destruct v, e as [room ps]; simpl; [|reflexivity].
  now rewrite app_nil_r.
Qed.

Lemma keys_swept_single c room ps :
  JsMap.keys (swept c [(room, ps)]) = []
  \/ JsMap.keys (swept c [(room, ps)]) = [room].
Proof.
  simpl. destruct (JsSet.has c ps); [|now right].
  destruct (JsSet.delete c ps); [now left | now right].
Qed.

Lemma visit_eq v c room ps pre rest :
  ~ In room (JsMap.keys pre) ->
  visit v c (room, ps) (pre ++ (room, ps) :: rest)
  = (Normal tt, pre ++ swept c [(room, ps)] ++ rest, goodbyes v c [(room, ps)]).
Proof.
  intros Hpre. destruct v; unfold visit; cbn [swept goodbyes farewells].
  all: destruct (JsSet.has c ps); [|reflexivity].
  all: unfold bind, rooms_set, rooms_delete, JsSet.size.
  all: rewrite set_middle by assumption.
  all: destruct (JsSet.delete c ps) as [|p stay] eqn:Hdel; cbn [length Nat.eqb].
  all: try (rewrite delete_middle by assumption; reflexivity).
  - rewrite (for_each_effects (fun peerId => [farewell c peerId]))
      by reflexivity.
    rewrite farewells_as_flat_map, app_nil_r. reflexivity.
  - reflexivity.
Qed.

Lemma sweep_from v c :
  forall rest pre,
    NoDup (JsMap.keys (pre ++ rest)) ->
    for_each rest (visit v c) (pre ++ rest)
    = (Normal tt, pre ++ swept c rest, goodbyes v c rest).
Proof.
  induction rest as [|[room ps] rest IH]; intros pre Hnd.
  - destruct v; reflexivity.
  - assert (Hpre : ~ In room (JsMap.keys pre)).
    { unfold JsMap.keys in *. rewrite map_app in Hnd. simpl in Hnd.
      apply NoDup_remove_2 in Hnd. rewrite in_app_iff in Hnd. tauto. }
    rewrite (for_each_cons _ _ _ _ _ _ (visit_eq v c room ps pre rest Hpre)).
    rewrite app_assoc, IH.
    + rewrite (swept_cons c (room, ps) rest),
        (goodbyes_cons v c (room, ps) rest), <- app_assoc.
      reflexivity.
    + unfold JsMap.keys in *. rewrite !map_app in *. simpl in Hnd.
      destruct (keys_swept_single c room ps) as [E|E];
        unfold JsMap.keys in E; rewrite E; simpl.
      * rewrite app_nil_r. now apply NoDup_remove_1 in Hnd.
      * rewrite <- app_assoc. exact Hnd.
Qed.

Lemma disconnect_eq v c rooms :
  NoDup (JsMap.keys rooms) ->
  handleDisconnect v c rooms = (Normal tt, swept c rooms, goodbyes v c rooms).
Proof.
  intros Hnd. rewrite cleanup_as_visit. unfold bind, rooms_entries.
  pose proof (sweep_from v c rooms [] Hnd) as H. cbn [app] in H.
  now rewrite H.
Qed.

Lemma for_each_skip {A} (f : A -> Handler unit) xs :
  (forall x, In x xs -> forall rooms, f x rooms = (Normal tt, rooms, [])) ->
  forall rooms, for_each xs f rooms = (Normal tt, rooms, []).
Proof.
  induction xs as [|x xs IH]; intros Hf rooms; simpl; [reflexivity|].
  unfold bind. rewrite Hf by now left. rewrite IH; [reflexivity|].
  intros y Hy. apply Hf. now right.
Qed.

Lemma for_each_normal {A} (f : A -> Handler unit) xs :
  (forall x rooms, completion (f x rooms) = Normal tt) ->
  forall rooms, completion (for_each xs f rooms) = Normal tt.
Proof.
  intros Hf. induction xs as [|x xs IH]; intros rooms; simpl; [reflexivity|].
  unfold bind, completion in *. specialize (Hf x rooms).
  destruct (f x rooms) as [[r rooms'] out]. simpl in Hf. subst r.
  specialize (IH rooms'). destruct (for_each xs f rooms') as [[r rooms''] out'].
  exact IH.
Qed.

Lemma visit_normal v c entry rooms :
  completion (visit v c entry rooms) = Normal tt.
Proof.
  destruct entry as [room ps]. destruct v; unfold visit.
  all: destruct (JsSet.has c ps); [|reflexivity].
  all: unfold bind, rooms_set.
  all: destruct (JsSet.size (JsSet.delete c ps) =? 0)%nat; try reflexivity.
  rewrite (for_each_effects (fun peerId => [farewell c peerId]))
    by reflexivity.
  reflexivity.
Qed.

Lemma for_each_emits {A} (P : Effect -> Prop) (f : A -> Handler unit) xs :
  (forall x rooms, Forall P (emitted (f x rooms))) ->
  forall rooms, Forall P (emitted (for_each xs f rooms)).
Proof.
  intros Hf. induction xs as [|x xs IH]; intros rooms; simpl; [constructor|].
  unfold bind, emitted in *. specialize (Hf x rooms).
  destruct (f x rooms) as [[[[]|e] rooms'] out]; [|exact Hf].
  specialize (IH rooms'). destruct (for_each xs f rooms') as [[r rooms''] out'].
  apply Forall_app. now split.
Qed.

Lemma visit_emits v c entry rooms :
  Forall (fun e => exists peerId, e = farewell c peerId)
         (emitted (visit v c entry rooms)).
Proof.
  destruct entry as [room ps]. destruct v; unfold visit.
  all: destruct (JsSet.has c ps); [|constructor].
  all: unfold bind, rooms_set.
  all: destruct (JsSet.size (JsSet.delete c ps) =? 0)%nat; try constructor.
  rewrite (for_each_effects (fun peerId => [farewell c peerId]))
    by reflexivity.
  unfold emitted. cbn [snd app]. rewrite farewells_as_flat_map.
  apply Forall_forall. intros e He. apply in_map_iff in He.
  destruct He as [peerId [<- _]]. now exists peerId.
Qed.

(** ** The closed forms of join and relay *)

Lemma guard_passes roomId :
  invalid_room_id roomId = false
  <-> exists room, roomId = JString room /\ room <> "".
Proof.
  unfold invalid_room_id. split.
  - destruct roomId as [| |b|z|s|fs]; simpl; try (destruct b; discriminate);
      try (rewrite orb_true_r; discriminate); try discriminate.
    rewrite orb_false_r, negb_involutive, String.eqb_neq. eauto.
  - intros [room [-> Hne]]. simpl.
    apply String.eqb_neq in Hne. now rewrite Hne.
Qed.

Lemma join_invalid v c roomId rooms :
  invalid_room_id roomId = true ->
  handleJoinRoom v c roomId rooms
  = (Normal tt, rooms, [room_error c "Invalid room ID"]).
Proof.
  unfold invalid_room_id. intros H.
  destruct v; unfold handleJoinRoom, Variant1.handleJoinRoom,
    Variant2.handleJoinRoom, try_catch; rewrite H; reflexivity.
Qed.

Lemma join_eq v c room rooms :
  room <> "" ->
  handleJoinRoom v c (JString room) rooms
  = if (MAX_PARTICIPANTS <=? length (members room rooms))%nat then
      (Normal tt, rooms, [room_error c "Room is full"])
    else
      (Normal tt,
       JsMap.set room (JsSet.add c (members room rooms)) rooms,
       Join c room
         :: Emit (ToClient c) "room-joined" (joined_data (JString room))
         :: introductions v c room (JsSet.add c (members room rooms))).
Proof.
  intros Hne. apply String.eqb_neq in Hne.
  destruct v; unfold handleJoinRoom, Variant1.handleJoinRoom,
    Variant2.handleJoinRoom, try_catch, members; simpl; rewrite Hne; simpl.
  all: unfold bind at 1, rooms_get at 1.
  all: set (ps := match JsMap.get room rooms with
                  | Some ps => ps
                  | None => JsSet.empty
                  end).
  all: change (match JsMap.get room rooms with Some ps0 => ps0 | None => [] end)
         with ps.
  all: unfold JsSet.size at 1.
  all: unfold MAX_PARTICIPANTS; simpl Nat.leb.
  all: destruct (length ps) as [|[|n]]; try reflexivity.
  all: unfold bind, do_effect, rooms_set; simpl.
  1, 2: rewrite (for_each_effects
               (fun peerId =>
                  if negb (peerId =? c) then
                    [Emit (ServerTo peerId) "new-peer" (peer_data c);
                     Emit (ToClient c) "new-peer" (peer_data peerId)]
                  else []));
    [reflexivity | intros x rooms0; now destruct (negb (x =? c))].
  all: now destruct (1 <? JsSet.size (JsSet.add c ps))%nat.
Qed.

Lemma validate_eq c roomId rooms :
  validateRoomParticipant c roomId rooms
  = (Normal (is_participant c roomId rooms), rooms, []).
Proof.
  unfold validateRoomParticipant, is_participant, members, bind, rooms_lookup.
  destruct roomId; try reflexivity.
  unfold rooms_get. simpl. now destruct (JsMap.get s rooms).
Qed.

Lemma relay_eq v k c p rooms :
  handleRelay v k c p rooms
  = (Normal tt, rooms,
     [if is_participant c (roomId p) rooms then
        Emit (relay_target v c (targetPeerId p)) (event_name k)
             (signal_data (field_name k) (signal p) c)
      else signaling_error c "Not a room participant"]).
Proof.
  destruct v, k; unfold handleRelay, Variant1.handleOffer,
    Variant1.handleAnswer, Variant1.handleIceCandidate, Variant2.handleOffer,
    Variant2.handleAnswer, Variant2.handleIceCandidate, try_catch.
  all: unfold bind at 1; rewrite validate_eq.
  all: now destruct (is_participant c (roomId p) rooms).
Qed.

(** ** The invariant of the room store *)

Lemma members_set room ps rooms :
  members room (JsMap.set room ps rooms) = ps.
Proof. unfold members. now rewrite get_set, String.eqb_refl. Qed.

Lemma members_absent room rooms :
  JsMap.get room rooms = None -> members room rooms = [].
Proof. unfold members. now intros ->. Qed.

Lemma In_keys_swept c k rooms :
  In k (JsMap.keys (swept c rooms)) -> In k (JsMap.keys rooms).
Proof.
  induction rooms as [|[room ps] rooms IH]; simpl; [tauto|].
  destruct (JsSet.has c ps); [destruct (JsSet.delete c ps)|]; simpl; tauto.
Qed.

Lemma NoDup_keys_swept c rooms :
  NoDup (JsMap.keys rooms) -> NoDup (JsMap.keys (swept c rooms)).
Proof.
  induction rooms as [|[room ps] rooms IH]; simpl; [constructor|].
  intros H. inversion H as [|? ? Hk Hnd]; subst.
  assert (Hk' : ~ In room (JsMap.keys (swept c rooms))).
  { intros Hin. apply Hk. eapply In_keys_swept, Hin. }
  destruct (JsSet.has c ps); [destruct (JsSet.delete c ps)|]; simpl;
    auto; constructor; auto.
Qed.

Lemma well_formed_swept c rooms :
  well_formed rooms -> well_formed (swept c rooms).
Proof.
  intros [Hk Hall]. split; [now apply NoDup_keys_swept|]. clear Hk.
  induction Hall as [|[room ps] rooms [Hne [Hnd [Hps Hlen]]] Hall IH]; simpl;
    [constructor|].
  simpl in *. destruct (JsSet.has c ps).
  - destruct (JsSet.delete c ps) as [|p stay] eqn:E; [assumption|].
    constructor; [|assumption]. rewrite <- E. repeat split; simpl.
    + assumption.
    + now apply NoDup_delete.
    + rewrite E. discriminate.
    + pose proof (length_delete c ps). lia.
  - constructor; [|assumption]. repeat split; assumption.
Qed.

Lemma get_swept c k rooms :
  NoDup (JsMap.keys rooms) ->
  JsMap.get k (swept c rooms)
  = match JsMap.get k rooms with
    | Some ps =>
        if JsSet.has c ps then
          match JsSet.delete c ps with
          | [] => None
          | stay => Some stay
          end
        else Some ps
    | None => None
    end.
Proof.
  induction rooms as [|[room ps] rooms IH]; simpl; [reflexivity|].
  intros H. inversion H as [|? ? Hk Hnd]; subst. specialize (IH Hnd).
  destruct (String.eqb_spec room k) as [->|Hne].
  - destruct (JsSet.has c ps).
    + destruct (JsSet.delete c ps) as [|p stay].
      * apply get_None. intros Hin. apply Hk. eapply In_keys_swept, Hin.
      * simpl. now rewrite String.eqb_refl.
    + simpl. now rewrite String.eqb_refl.
  - apply String.eqb_neq in Hne.
    destruct (JsSet.has c ps); [destruct (JsSet.delete c ps)|]; simpl;
      try rewrite Hne; exact IH.
Qed.

Lemma room_ok_get room ps rooms :
  well_formed rooms -> JsMap.get room rooms = Some ps -> room_ok (room, ps).
Proof.
  intros [_ Hall] H. apply get_In in H.
  rewrite Forall_forall in Hall. now apply Hall.
Qed.

Lemma members_ok room rooms :
  well_formed rooms ->
  NoDup (members room rooms) /\ length (members room rooms) <= MAX_PARTICIPANTS.
Proof.
  intros Hwf. unfold members. destruct (JsMap.get room rooms) as [ps|] eqn:E.
  - apply (room_ok_get _ _ _ Hwf) in E. destruct E as [_ [Hnd [_ Hlen]]].
    now split.
  - split; [constructor | simpl; unfold MAX_PARTICIPANTS; lia].
Qed.

Lemma well_formed_join c room rooms :
  well_formed rooms -> room <> "" ->
  length (members room rooms) < MAX_PARTICIPANTS ->
  well_formed (JsMap.set room (JsSet.add c (members room rooms)) rooms).
Proof.
  intros Hwf Hne Hlen. destruct (members_ok room rooms Hwf) as [Hnd _].
  destruct Hwf as [Hk Hall]. split; [now apply NoDup_keys_set|].
  apply Forall_set; [assumption|].
  repeat split; simpl.
  - assumption.
  - now apply NoDup_add.
  - apply add_nonempty.
  - pose proof (length_add c (members room rooms)). lia.
Qed.

(** Every handler returns normally, and keeps the invariant. *)
Lemma dispatch_ok v ev rooms :
  well_formed rooms ->
  exists rooms' out,
    dispatch v ev rooms = (Normal tt, rooms', out) /\ well_formed rooms'.
Proof.
  intros Hwf. destruct ev as [c|c|c roomId|k c p]; simpl.
  - exists rooms, []. now split.
  - rewrite disconnect_eq by apply Hwf.
    eexists _, _. split; [reflexivity | now apply well_formed_swept].
  - destruct (invalid_room_id roomId) eqn:E.
    + rewrite join_invalid by assumption. eexists _, _. now split.
    + apply guard_passes in E. destruct E as [room [-> Hne]].
      rewrite join_eq by assumption.
      destruct (Nat.leb_spec MAX_PARTICIPANTS (length (members room rooms))).
      * eexists _, _. now split.
      * eexists _, _. split; [reflexivity | now apply well_formed_join].
  - rewrite relay_eq. eexists _, _. now split.
Qed.

Lemma serve_ok v evs :
  forall rooms,
    well_formed rooms ->
    exists rooms' out,
      serve v evs rooms = (Normal tt, rooms', out) /\ well_formed rooms'.
Proof.
  induction evs as [|ev evs IH]; intros rooms Hwf.
  - exists rooms, []. now split.
  - destruct (dispatch_ok v ev rooms Hwf) as [rooms1 [out1 [E1 Hwf1]]].
    destruct (IH rooms1 Hwf1) as [rooms2 [out2 [E2 Hwf2]]].
    exists rooms2, (out1 ++ out2). split; [|assumption].
    unfold serve in *. simpl. unfold bind. now rewrite E1, E2.
Qed.

Lemma well_formed_initial : well_formed initial.
Proof. split; constructor. Qed.

Lemma well_formed_rooms_after v evs : well_formed (rooms_after v evs).
Proof.
  destruct (serve_ok v evs initial well_formed_initial)
    as [rooms [out [E Hwf]]].
  unfold rooms_after. now rewrite E.
Qed.

Lemma members_nonempty_name room rooms :
  well_formed rooms -> members room rooms <> [] -> room <> "".
Proof.
  intros Hwf H. unfold members in H.
  destruct (JsMap.get room rooms) as [ps|] eqn:E; [|contradiction].
  now apply (room_ok_get _ _ _ Hwf) in E as [Hne _].
Qed.

(** ** Counting notifications *)

Lemma count_told_app dest event peer out1 out2 :
  count_told dest event peer (out1 ++ out2)
  = count_told dest event peer out1 + count_told dest event peer out2.
Proof. unfold count_told. now rewrite filter_app, length_app. Qed.

Lemma has_delete_other c d ps :
  d <> c -> JsSet.has d (JsSet.delete c ps) = JsSet.has d ps.
Proof.
  intros Hne. apply Bool.eq_iff_eq_true. rewrite !has_In, In_delete. tauto.
Qed.

Lemma count_farewell c d qs :
  NoDup qs ->
  count_told d "peer-disconnected" c (map (farewell c) qs)
  = if JsSet.has d qs then 1 else 0.
Proof.
  unfold count_told. induction 1 as [|q qs Hq Hnd IH]; [reflexivity|].
  cbn [map filter tells farewell peer_of peer_data addressee].
  rewrite !String.eqb_refl. cbn [andb JsSet.has existsb].
  fold (JsSet.has d qs). rewrite (String.eqb_sym d q).
  destruct (String.eqb_spec q d) as [->|Hne]; cbn [orb length].
  - apply has_false in Hq. rewrite Hq in IH. now rewrite IH.
  - exact IH.
Qed.

Lemma count_farewells c d rooms :
  Forall (fun entry => NoDup (snd entry)) rooms -> d <> c ->
  count_told d "peer-disconnected" c (farewells c rooms)
  = length (shared_rooms c d rooms).
Proof.
  intros Hall Hne. induction Hall as [|[room ps] rooms Hnd Hall IH];
    [reflexivity|].
  cbn [farewells shared_rooms filter]. rewrite count_told_app.
  fold (shared_rooms c d rooms). rewrite IH.
  destruct (JsSet.has c ps); cbn [andb].
  - rewrite count_farewell by now apply NoDup_delete.
    rewrite has_delete_other by assumption.
    now destruct (JsSet.has d ps).
  - reflexivity.
Qed.

Lemma filter_none {A} (f : A -> bool) xs :
  (forall x, In x xs -> f x = false) -> filter f xs = [].
Proof.
  induction xs as [|x xs IH]; intros H; simpl; [reflexivity|].
  rewrite H by now left. apply IH. intros y Hy. apply H. now right.
Qed.

(** A test that holds of the entry at [k] and of no other entry selects
    one entry. *)
Lemma filter_one (f : string * JsSet.t -> bool) k ps (rooms : RoomStore) :
  NoDup (JsMap.keys rooms) ->
  JsMap.get k rooms = Some ps ->
  f (k, ps) = true ->
  (forall k' qs, In (k', qs) rooms -> k' <> k -> f (k', qs) = false) ->
  length (filter f rooms) = 1.
Proof.
  induction rooms as [|[k0 q0] rooms IH]; simpl; [discriminate|].
  intros Hnd Hget Hf Hother. inversion Hnd as [|? ? Hk Hnd']; subst.
  destruct (String.eqb_spec k0 k) as [->|Hne].
  - injection Hget as ->. rewrite Hf. simpl. f_equal.
    rewrite filter_none; [reflexivity|].
    intros [k' qs] Hin. apply Hother; [now right|].
    intros ->. apply Hk. change k with (fst (k, qs)). now apply in_map.
  - rewrite (Hother k0 q0) by (auto; now left).
    apply IH; auto.
Qed.

Lemma the_other_member c d ps :
  NoDup ps -> length ps <= 2 -> In c ps -> In d ps -> d <> c ->
  JsSet.delete c ps = [d].
Proof.
  intros Hnd Hlen Hc Hd Hne.
  destruct ps as [|a [|b [|x ps]]]; simpl in *; try lia; try tauto.
  - destruct Hc as [->|[]]. destruct Hd as [->|[]]. contradiction.
  - inversion Hnd as [|? ? Hab _]; subst. simpl in Hab.
    destruct Hc as [->|[->|[]]], Hd as [->|[->|[]]]; try contradiction.
    + rewrite String.eqb_refl. simpl.
      apply String.eqb_neq in Hne. now rewrite Hne.
    + rewrite String.eqb_refl. simpl.
      apply String.eqb_neq in Hne. now rewrite Hne.
Qed.

(** ** The properties of the specification *)

(** C1.  Whatever inbound events were served, a room never holds more than
    [MAX_PARTICIPANTS] = 2 connection identifiers, all distinct; and a
    [join-room] for a room that holds 2 members is answered with
    [room-error] "Room is full" and leaves the store as it was. *)
Theorem C1_room_capacity (v : Variant) (evs : list Inbound) (room c : string) :
  let rooms := rooms_after v evs in
  NoDup (members room rooms)
  /\ length (members room rooms) <= 2
  /\ (length (members room rooms) = 2 ->
      handleJoinRoom v c (JString room) rooms
      = (Normal tt, rooms, [room_error c "Room is full"])).
Proof.
  intros rooms. pose proof (well_formed_rooms_after v evs) as Hwf.
  fold rooms in Hwf. destruct (members_ok room rooms Hwf) as [Hnd Hlen].
  repeat split; [assumption | assumption |].
  intros H2. rewrite join_eq.
  - now rewrite H2.
  - apply (members_nonempty_name room rooms Hwf).
    intros E. rewrite E in H2. discriminate.
Qed.

Lemma C1_room_capacity_witness :
  let rooms :=
    rooms_after V1 [JoinRoom "A" (JString "x"); JoinRoom "B" (JString "x")] in
  length (members "x" rooms) = 2
  /\ handleJoinRoom V1 "C" (JString "x") rooms
     = (Normal tt, rooms, [room_error "C" "Room is full"]).
Proof.
  split; [reflexivity|].
  exact (proj2 (proj2 (C1_room_capacity V1
                         [JoinRoom "A" (JString "x"); JoinRoom "B" (JString "x")]
                         "x" "C")) eq_refl).
Defined.

(** C2.  A relay (offer, answer or ice-candidate) from a connection that is
    not a member of the room named in the payload is answered with
    [signaling-error] "Not a room participant" to the caller; nothing else is
    emitted and the store is untouched. *)
Theorem C2_relay_by_non_member (v : Variant) (k : RelayKind) (c : string)
    (p : SignalPayload) (rooms : RoomStore) :
  (forall room, roomId p = JString room -> ~ In c (members room rooms)) ->
  handleRelay v k c p rooms
  = (Normal tt, rooms, [signaling_error c "Not a room participant"]).
Proof.
  intros H. rewrite relay_eq.
  assert (E : is_participant c (roomId p) rooms = false).
  { unfold is_participant. destruct (roomId p); try reflexivity.
    apply has_false. now apply H. }
  now rewrite E.
Qed.

Lemma C2_relay_by_non_member_witness :
  let rooms :=
    rooms_after V2 [JoinRoom "A" (JString "x"); JoinRoom "B" (JString "x")] in
  let p := {| roomId := JString "x"; signal := JString "sdp";
              targetPeerId := "B" |} in
  handleRelay V2 Offer "C" p rooms
  = (Normal tt, rooms, [signaling_error "C" "Not a room participant"]).
Proof.
  intros rooms p. apply (C2_relay_by_non_member V2 Offer "C" p rooms).
  intros room [= <-]. simpl. intros [H|[H|[]]]; discriminate.
Defined.

(** C3.  A [join-room] whose room id is the empty string or is not a string
    is answered with [room-error] "Invalid room ID" to the caller, and the
    store is untouched. *)
Theorem C3_invalid_room_id (v : Variant) (c : string) (roomId : JsValue)
    (rooms : RoomStore) :
  roomId = JString "" \/ typeof roomId <> "string" ->
  handleJoinRoom v c roomId rooms
  = (Normal tt, rooms, [room_error c "Invalid room ID"]).
Proof.
  intros H. apply join_invalid. unfold invalid_room_id.
  destruct H as [->|H]; [reflexivity|].
  apply String.eqb_neq in H. rewrite H. apply orb_true_r.
Qed.

Lemma C3_invalid_room_id_witness :
  handleJoinRoom V1 "A" (JNumber 7) [("x", ["B"])]
  = (Normal tt, [("x", ["B"])], [room_error "A" "Invalid room ID"])
  /\ handleJoinRoom V2 "A" (JString "") [("x", ["B"])]
     = (Normal tt, [("x", ["B"])], [room_error "A" "Invalid room ID"]).
Proof.
  split.
  - apply (C3_invalid_room_id V1 "A" (JNumber 7) [("x", ["B"])]).
    right. simpl. discriminate.
  - apply (C3_invalid_room_id V2 "A" (JString "") [("x", ["B"])]).
    left. reflexivity.
Defined.

(** C4.  Whatever inbound events were served, the store holds no room with
    an empty member set.  When [c] is the sole member of room [room], the
    disconnect of [c] removes [room] from the store, and a [join-room] for
    [room] that follows succeeds and makes the caller its only member. *)
Theorem C4_no_empty_room (v : Variant) (evs : list Inbound) :
  let rooms := rooms_after v evs in
  Forall (fun entry => snd entry <> []) rooms
  /\ forall room c,
       JsMap.get room rooms = Some [c] ->
       let rooms1 := store_of (handleDisconnect v c rooms) in
       JsMap.get room rooms1 = None
       /\ forall c',
            handleJoinRoom v c' (JString room) rooms1
            = (Normal tt, JsMap.set room [c'] rooms1,
               [Join c' room;
                Emit (ToClient c') "room-joined" (joined_data (JString room))])
            /\ members room (JsMap.set room [c'] rooms1) = [c'].
Proof.
  intros rooms. pose proof (well_formed_rooms_after v evs) as Hwf.
  fold rooms in Hwf. split.
  - destruct Hwf as [_ Hall]. eapply Forall_impl; [|exact Hall].
    intros entry [_ [_ [H _]]]. exact H.
  - intros room c Hget rooms1.
    assert (Hne : room <> "") by apply (room_ok_get _ _ _ Hwf Hget).
    assert (Hgone : JsMap.get room rooms1 = None).
    { unfold rooms1. rewrite disconnect_eq by apply Hwf.
      unfold store_of. simpl. rewrite get_swept by apply Hwf.
      rewrite Hget. simpl. now rewrite String.eqb_refl. }
    split; [assumption|]. intros c'. split.
    + rewrite join_eq by assumption.
      rewrite (members_absent _ _ Hgone). simpl.
      destruct v; simpl; now rewrite ?String.eqb_refl.
    + unfold members. now rewrite get_set, String.eqb_refl.
Qed.

Lemma C4_no_empty_room_witness :
  let rooms := rooms_after V1 [JoinRoom "A" (JString "x")] in
  let rooms1 := store_of (handleDisconnect V1 "A" rooms) in
  JsMap.get "x" rooms = Some ["A"]
  /\ JsMap.get "x" rooms1 = None
  /\ members "x" (JsMap.set "x" ["B"] rooms1) = ["B"].
Proof.
  intros rooms rooms1.
  pose proof (proj2 (C4_no_empty_room V1 [JoinRoom "A" (JString "x")])
                "x" "A" eq_refl) as [Hgone Hjoin].
  split; [reflexivity|]. split; [exact Hgone|].
  exact (proj2 (Hjoin "B")).
Defined.

(** C5, as the code has it.  Let [c] and [d] be the two members of room
    [room].  After the disconnect of [c] the room is still in the store, with
    [d] as its only member.  Variant 1 sends [d] one [peer-disconnected]
    event carrying [c] for every room that held both, hence exactly one when
    [room] is the only room they share; variant 2 emits nothing. *)
Theorem C5_disconnect_of_one_of_two (v : Variant) (evs : list Inbound)
    (c d room : string) :
  let rooms := rooms_after v evs in
  let result := handleDisconnect v c rooms in
  In c (members room rooms) -> In d (members room rooms) -> d <> c ->
  JsMap.get room (store_of result) = Some [d]
  /\ match v with
     | V1 =>
         count_told d "peer-disconnected" c (emitted result)
         = length (shared_rooms c d rooms)
         /\ ((forall room' ps, In (room', ps) rooms -> room' <> room ->
                ~ (In c ps /\ In d ps)) ->
             count_told d "peer-disconnected" c (emitted result) = 1)
     | V2 => emitted result = []
     end.
Proof.
  intros rooms result Hc Hd Hne.
  pose proof (well_formed_rooms_after v evs) as Hwf. fold rooms in Hwf.
  destruct (members_ok room rooms Hwf) as [Hnd Hlen].
  pose proof (the_other_member c d _ Hnd Hlen Hc Hd Hne) as Hdel.
  assert (Hget : JsMap.get room rooms = Some (members room rooms)).
  { unfold members in *. now destruct (JsMap.get room rooms). }
  unfold result. rewrite disconnect_eq by apply Hwf.
  unfold store_of, emitted. cbn [fst snd]. split.
  - rewrite get_swept by apply Hwf. rewrite Hget.
    apply has_In in Hc. now rewrite Hc, Hdel.
  - destruct v; [|reflexivity]. cbn [goodbyes].
    assert (Hsets : Forall (fun entry => NoDup (snd entry)) rooms).
    { destruct Hwf as [_ Hall]. eapply Forall_impl; [|exact Hall].
      now intros entry [_ [H _]]. }
    rewrite count_farewells by assumption. split; [reflexivity|].
    intros Honly.
    apply (filter_one _ room (members room rooms));
      [apply Hwf | assumption | |].
    + apply has_In in Hc, Hd. now rewrite Hc, Hd.
    + intros room' ps Hin Hother.
      destruct (JsSet.has c ps) eqn:E1; [|reflexivity].
      destruct (JsSet.has d ps) eqn:E2; [|reflexivity].
      exfalso. apply (Honly room' ps Hin Hother).
      split; now apply has_In.
Qed.

Lemma C5_disconnect_of_one_of_two_witness :
  let rooms :=
    rooms_after V1 [JoinRoom "A" (JString "x"); JoinRoom "B" (JString "x")] in
  let result := handleDisconnect V1 "A" rooms in
  JsMap.get "x" (store_of result) = Some ["B"]
  /\ count_told "B" "peer-disconnected" "A" (emitted result) = 1.
Proof.
  intros rooms result.
  destruct (C5_disconnect_of_one_of_two V1
              [JoinRoom "A" (JString "x"); JoinRoom "B" (JString "x")]
              "A" "B" "x") as [Hroom [_ Hone]].
  - simpl. now left.
  - simpl. now right; left.
  - discriminate.
  - split; [exact Hroom|]. apply Hone.
    intros room' ps [[= <- <-]|[]] Hother. now contradiction Hother.
Defined.

(** C5 does not hold as the specification words it: under variant 2 the
    member that stays is sent nothing; under variant 1 a member that shares
    two rooms with the one that left is sent two events. *)
Lemma C5_counterexample :
  (let rooms :=
     rooms_after V2 [JoinRoom "A" (JString "x"); JoinRoom "B" (JString "x")] in
   members "x" rooms = ["A"; "B"]
   /\ emitted (handleDisconnect V2 "A" rooms) = []
   /\ count_told "B" "peer-disconnected" "A"
        (emitted (handleDisconnect V2 "A" rooms)) <> 1)
  /\ (let rooms :=
        rooms_after V1 [JoinRoom "A" (JString "x"); JoinRoom "B" (JString "x");
                        JoinRoom "A" (JString "y"); JoinRoom "B" (JString "y")]
      in
      members "x" rooms = ["A"; "B"]
      /\ count_told "B" "peer-disconnected" "A"
           (emitted (handleDisconnect V1 "A" rooms)) = 2).
Proof. repeat split. discriminate. Qed.

(** C6, as the code has it.  A [join-room] by [c] for a room that is not
    full succeeds, and its events are [room-joined] to the caller followed by
    the introductions.  When the room held a member [p] other than the
    caller, variant 1 sends [p] one [new-peer] event carrying [c] and sends
    [c] one [new-peer] event carrying [p]; variant 2 broadcasts one
    [new-peer] event carrying [c] on the channel of the room, the caller
    excepted, and sends the caller no [new-peer] event.  When the room was
    empty or held only the caller, no [new-peer] event is emitted. *)
Theorem C6_join_introductions (v : Variant) (evs : list Inbound)
    (c room : string) :
  let rooms := rooms_after v evs in
  let result := handleJoinRoom v c (JString room) rooms in
  room <> "" -> length (members room rooms) < 2 ->
  emitted result
  = Join c room
      :: Emit (ToClient c) "room-joined" (joined_data (JString room))
      :: match JsSet.delete c (members room rooms), v with
         | [], _ => []
         | p :: _, V1 => [Emit (ServerTo p) "new-peer" (peer_data c);
                          Emit (ToClient c) "new-peer" (peer_data p)]
         | p :: _, V2 => [Emit (ClientTo c room) "new-peer" (peer_data c)]
         end
  /\ forall p,
       In p (members room rooms) -> p <> c ->
       members room (store_of result) = [p; c]
       /\ match v with
          | V1 => count_told p "new-peer" c (emitted result) = 1
                  /\ count_told c "new-peer" p (emitted result) = 1
          | V2 => count_told c "new-peer" p (emitted result) = 0
          end.
Proof.
  intros rooms result Hroom Hlen. unfold result.
  rewrite join_eq by assumption.
  destruct (Nat.leb_spec MAX_PARTICIPANTS (length (members room rooms)))
    as [Hfull|_]; [unfold MAX_PARTICIPANTS in Hfull; lia|].
  unfold emitted, store_of. cbn [fst snd].
  rewrite members_set.
  destruct (members room rooms) as [|a [|b ps]]; simpl in Hlen; [| |lia].
  - split; [|intros p []]. destruct v; simpl; now rewrite ?String.eqb_refl.
  - destruct (String.eqb_spec a c) as [->|Hac].
    + split.
      * unfold JsSet.add. simpl. rewrite String.eqb_refl. simpl.
        destruct v; simpl; now rewrite ?String.eqb_refl.
      * intros p [<-|[]] Hne. contradiction.
    + assert (Hca : (c =? a) = false)
        by (apply String.eqb_neq; congruence).
      assert (Hac' : (a =? c) = false) by now apply String.eqb_neq.
      unfold JsSet.add. simpl. rewrite Hca, Hac'. simpl. split.
      * destruct v; simpl; now rewrite ?Hac', ?String.eqb_refl.
      * intros p [<-|[]] _. split; [reflexivity|].
        destruct v; unfold count_told; simpl;
          rewrite ?Hac', ?Hca, ?String.eqb_refl; simpl;
          rewrite ?Hac', ?Hca, ?String.eqb_refl, ?andb_false_r; auto.
Qed.

Lemma C6_join_introductions_witness :
  let rooms := rooms_after V1 [JoinRoom "A" (JString "x")] in
  let result := handleJoinRoom V1 "B" (JString "x") rooms in
  members "x" (store_of result) = ["A"; "B"]
  /\ count_told "A" "new-peer" "B" (emitted result) = 1
  /\ count_told "B" "new-peer" "A" (emitted result) = 1.
Proof.
  intros rooms result.
  destruct (C6_join_introductions V1 [JoinRoom "A" (JString "x")] "B" "x")
    as [_ Hpeers].
  - discriminate.
  - simpl. lia.
  - apply (Hpeers "A"); [simpl; now left | discriminate].
Defined.

(** C6 does not hold as the specification words it: under variant 2 the
    newcomer is sent no [new-peer] event for the member that was there. *)
Lemma C6_counterexample :
  let rooms := rooms_after V2 [JoinRoom "A" (JString "x")] in
  let result := handleJoinRoom V2 "B" (JString "x") rooms in
  members "x" rooms = ["A"]
  /\ members "x" (store_of result) = ["A"; "B"]
  /\ emitted result
     = [Join "B" "x";
        Emit (ToClient "B") "room-joined" (joined_data (JString "x"));
        Emit (ClientTo "B" "x") "new-peer" (peer_data "B")]
  /\ count_told "B" "new-peer" "A" (emitted result) <> 1.
Proof. repeat split. discriminate. Qed.

(** C7.  A relay by a member of the room named in the payload emits exactly
    one event: it bears the name of the inbound event, is addressed to
    [targetPeerId], and carries the payload as received together with
    [senderId], the identifier of the sender.  The store is untouched. *)
Theorem C7_relay_forwarded (v : Variant) (k : RelayKind) (c room : string)
    (p : SignalPayload) (rooms : RoomStore) :
  roomId p = JString room -> In c (members room rooms) ->
  handleRelay v k c p rooms
  = (Normal tt, rooms,
     [Emit (relay_target v c (targetPeerId p)) (event_name k)
           (JObject [(field_name k, signal p); ("senderId", JString c)])])
  /\ addressee (relay_target v c (targetPeerId p)) = targetPeerId p.
Proof.
  intros Hroom Hc. split.
  - rewrite relay_eq. unfold is_participant. rewrite Hroom.
    apply has_In in Hc. now rewrite Hc.
  - now destruct v.
Qed.

Lemma C7_relay_forwarded_witness :
  let rooms :=
    rooms_after V1 [JoinRoom "A" (JString "x"); JoinRoom "B" (JString "x")] in
  let sdp := JObject [("type", JString "offer"); ("sdp", JString "v=0")] in
  let p := {| roomId := JString "x"; signal := sdp; targetPeerId := "B" |} in
  handleRelay V1 Offer "A" p rooms
  = (Normal tt, rooms,
     [Emit (ServerTo "B") "offer"
           (JObject [("offer", sdp); ("senderId", JString "A")])]).
Proof.
  intros rooms sdp p.
  apply (C7_relay_forwarded V1 Offer "A" "x" p rooms);
    [reflexivity | simpl; now left].
Defined.

(** C8.  The relay handlers never look [targetPeerId] up in the store: when
    the sender is a member of the room, the relay is emitted to the target
    that was supplied, be it a member of that room, a member of another room
    or a member of no room; and the event emitted is the same in every store
    in which the sender is a member of the room. *)
Theorem C8_target_unchecked (v : Variant) (k : RelayKind)
    (c room target : string) (data : JsValue) (rooms : RoomStore) :
  let p := {| roomId := JString room; signal := data;
              targetPeerId := target |} in
  let sent :=
    [Emit (relay_target v c target) (event_name k)
          (signal_data (field_name k) data c)] in
  In c (members room rooms) ->
  (In target (members room rooms) -> emitted (handleRelay v k c p rooms) = sent)
  /\ ((exists room', room' <> room /\ In target (members room' rooms)) ->
      emitted (handleRelay v k c p rooms) = sent)
  /\ ((forall room', ~ In target (members room' rooms)) ->
      emitted (handleRelay v k c p rooms) = sent)
  /\ (forall rooms',
         In c (members room rooms') ->
         emitted (handleRelay v k c p rooms')
         = emitted (handleRelay v k c p rooms)).
Proof.
  intros p sent Hc.
  assert (H : forall rooms0, In c (members room rooms0) ->
                emitted (handleRelay v k c p rooms0) = sent).
  { intros rooms0 Hc0. rewrite relay_eq. unfold is_participant. simpl.
    apply has_In in Hc0. now rewrite Hc0. }
  repeat split; intros; rewrite ?H; auto.
Qed.

Lemma C8_target_unchecked_witness :
  let rooms := rooms_after V2 [JoinRoom "A" (JString "x")] in
  let p := {| roomId := JString "x"; signal := JString "sdp";
              targetPeerId := "Z" |} in
  (forall room', ~ In "Z" (members room' rooms))
  /\ emitted (handleRelay V2 Answer "A" p rooms)
     = [Emit (ClientTo "A" "Z") "answer" (signal_data "answer" (JString "sdp") "A")].
Proof.
  intros rooms p.
  assert (Hnone : forall room', ~ In "Z" (members room' rooms)).
  { intros room'. change rooms with [("x", ["A"])]. unfold members.
    cbn [JsMap.get]. destruct ("x" =? room'); [|intros []].
    intros [H|[]]. discriminate. }
  split; [exact Hnone|].
  destruct (C8_target_unchecked V2 Answer "A" "x" "Z" (JString "sdp") rooms)
    as [_ [_ [Hout _]]].
  - simpl. now left.
  - exact (Hout Hnone).
Defined.

(** C9.  The disconnect handler returns normally in every store and emits
    nothing but [peer-disconnected] notifications, so no error event; for a
    connection that is in no member set it leaves the store as it was and
    emits nothing.  The connect handler never touches the store. *)
Theorem C9_disconnect_connect_frame (v : Variant) (c : string)
    (rooms : RoomStore) :
  completion (handleDisconnect v c rooms) = Normal tt
  /\ Forall (fun e => exists peerId, e = farewell c peerId)
            (emitted (handleDisconnect v c rooms))
  /\ ((forall room ps, In (room, ps) rooms -> ~ In c ps) ->
      handleDisconnect v c rooms = (Normal tt, rooms, []))
  /\ handleConnection c rooms = (Normal tt, rooms, []).
Proof.
  rewrite cleanup_as_visit. unfold bind, rooms_entries. repeat split.
  - pose proof (for_each_normal (visit v c) rooms (visit_normal v c) rooms)
      as H.
    unfold completion in *.
    destruct (for_each rooms (visit v c) rooms) as [[r rooms'] out].
    simpl in *. now subst r.
  - pose proof (for_each_emits _ (visit v c) rooms (visit_emits v c) rooms)
      as H.
    unfold emitted in *.
    destruct (for_each rooms (visit v c) rooms) as [[r rooms'] out].
    exact H.
  - intros Hnone. rewrite for_each_skip; [reflexivity|].
    intros [room ps] Hin rooms0.
    apply Hnone, has_false in Hin.
    destruct v; unfold visit; now rewrite Hin.
Qed.

Lemma C9_disconnect_connect_frame_witness :
  let rooms :=
    rooms_after V1 [JoinRoom "A" (JString "x"); JoinRoom "B" (JString "x")] in
  handleDisconnect V1 "C" rooms = (Normal tt, rooms, []).
Proof.
  intros rooms.
  apply (proj1 (proj2 (proj2 (C9_disconnect_connect_frame V1 "C" rooms)))).
  intros room ps Hin Hc. change rooms with [("x", ["A"; "B"])] in Hin.
  destruct Hin as [Hin|[]]. injection Hin as _ <-.
  destruct Hc as [Hc|[Hc|[]]]; discriminate.
Defined.

(** C10.  A [join-room] by a connection that is already a member of the
    room: while the room holds fewer than 2 members it succeeds and the store
    stays as it was, the caller still the only member; once the room holds 2
    members it is answered with [room-error] "Room is full", although the
    caller is one of the two. *)
Theorem C10_join_again (v : Variant) (evs : list Inbound) (c room : string) :
  let rooms := rooms_after v evs in
  In c (members room rooms) ->
  (length (members room rooms) < 2 ->
   handleJoinRoom v c (JString room) rooms
   = (Normal tt, rooms,
      [Join c room;
       Emit (ToClient c) "room-joined" (joined_data (JString room))])
   /\ members room rooms = [c])
  /\ (length (members room rooms) = 2 ->
      handleJoinRoom v c (JString room) rooms
      = (Normal tt, rooms, [room_error c "Room is full"])).
Proof.
  intros rooms Hc.
  pose proof (well_formed_rooms_after v evs) as Hwf. fold rooms in Hwf.
  assert (Hroom : room <> "").
  { apply (members_nonempty_name room rooms Hwf). intros E.
    rewrite E in Hc. destruct Hc. }
  rewrite join_eq by assumption. split; intros Hlen.
  - assert (Hget : JsMap.get room rooms = Some (members room rooms)).
    { unfold members in *. now destruct (JsMap.get room rooms). }
    destruct (members room rooms) as [|a [|b ps]] eqn:E; simpl in Hlen;
      [destruct Hc | | lia].
    destruct Hc as [->|[]]. split; [|reflexivity].
    unfold JsSet.add. simpl. rewrite String.eqb_refl. simpl.
    rewrite (set_same _ _ _ Hget).
    destruct v; simpl; now rewrite ?String.eqb_refl.
  - now rewrite Hlen.
Qed.

Lemma C10_join_again_witness :
  (let rooms := rooms_after V2 [JoinRoom "A" (JString "x")] in
   handleJoinRoom V2 "A" (JString "x") rooms
   = (Normal tt, rooms,
      [Join "A" "x";
       Emit (ToClient "A") "room-joined" (joined_data (JString "x"))]))
  /\ (let rooms :=
        rooms_after V2 [JoinRoom "A" (JString "x"); JoinRoom "B" (JString "x")]
      in
      handleJoinRoom V2 "A" (JString "x") rooms
      = (Normal tt, rooms, [room_error "A" "Room is full"])).
Proof.
  split; intros rooms.
  - apply (proj1 (C10_join_again V2 [JoinRoom "A" (JString "x")] "A" "x"
                    (or_introl eq_refl))).
    simpl. lia.
  - apply (proj2 (C10_join_again V2
                    [JoinRoom "A" (JString "x"); JoinRoom "B" (JString "x")]
                    "A" "x" (or_introl eq_refl))).
    reflexivity.
Defined.

(** ** Further properties of the handlers *)

Lemma delete_absent c ps : ~ In c ps -> JsSet.delete c ps = ps.
Proof.
  intros H. induction ps as [|y ps IH]; simpl; [reflexivity|].
  destruct (String.eqb_spec y c) as [->|Hne]; simpl.
  - exfalso. apply H. now left.
  - f_equal. apply IH. intros Hin. apply H. now right.
Qed.

Lemma In_add_self c ps : In c (JsSet.add c ps).
Proof.
  unfold JsSet.add. destruct (JsSet.has c ps) eqn:E.
  - now apply has_In.
  - apply in_or_app. right. now left.
Qed.

Lemma In_get (k : string) (ps : JsSet.t) (rooms : RoomStore) :
  NoDup (JsMap.keys rooms) -> In (k, ps) rooms -> JsMap.get k rooms = Some ps.
Proof.
  induction rooms as [|[k' v'] m IH]; simpl; [tauto|].
  intros Hnd [[= -> ->]|Hin].
  - now rewrite String.eqb_refl.
  - inversion Hnd as [|? ? Hk Hnd']; subst.
    destruct (String.eqb_spec k' k) as [->|Hne]; [|auto].
    exfalso. apply Hk. change k with (fst (k, ps)). now apply in_map.
Qed.

Lemma members_swept c room rooms :
  NoDup (JsMap.keys rooms) ->
  members room (swept c rooms) = JsSet.delete c (members room rooms).
Proof.
  intros Hnd. unfold members. rewrite get_swept by assumption.
  destruct (JsMap.get room rooms) as [ps|]; [|reflexivity].
  destruct (JsSet.has c ps) eqn:E.
  - now destruct (JsSet.delete c ps).
  - symmetry. apply delete_absent. now apply has_false.
Qed.

Lemma swept_clean c rooms room ps :
  In (room, ps) (swept c rooms) -> ~ In c ps.
Proof.
  induction rooms as [|[k q] rooms IH]; simpl; [tauto|].
  destruct (JsSet.has c q) eqn:E.
  - destruct (JsSet.delete c q) as [|x stay] eqn:D; [assumption|].
    intros [[= <- <-]|Hin]; [|auto].
    rewrite <- D, In_delete. tauto.
  - intros [[= <- <-]|Hin]; [|auto]. now apply has_false.
Qed.

Lemma swept_absent c rooms :
  (forall room ps, In (room, ps) rooms -> ~ In c ps) -> swept c rooms = rooms.
Proof.
  induction rooms as [|[k q] rooms IH]; intros H; simpl; [reflexivity|].
  assert (E : JsSet.has c q = false) by (apply has_false, (H k); now left).
  rewrite E. f_equal. apply IH. intros room ps Hin. apply (H room). now right.
Qed.

Lemma disconnect_absent v c rooms :
  (forall room ps, In (room, ps) rooms -> ~ In c ps) ->
  handleDisconnect v c rooms = (Normal tt, rooms, []).
Proof.
  intros Hnone. rewrite cleanup_as_visit. unfold bind, rooms_entries.
  rewrite for_each_skip; [reflexivity|].
  intros [room ps] Hin rooms0. apply Hnone, has_false in Hin.
  destruct v; unfold visit; now rewrite Hin.
Qed.

Lemma serve_cons v ev evs rooms rooms1 out1 :
  dispatch v ev rooms = (Normal tt, rooms1, out1) ->
  store_of (serve v (ev :: evs) rooms) = store_of (serve v evs rooms1).
Proof.
  intros E. unfold serve, store_of. simpl. unfold bind. rewrite E.
  now destruct (for_each evs (dispatch v) rooms1) as [[r rooms2] out2].
Qed.


(** X1.  A [join-room] reads and writes no entry of [rooms] but the one of
    the room it names (lines 60-68, 226-234): every other room keeps its
    member set.  So a caller that is a member of another room stays one;
    nothing enforces one room per connection. *)
Theorem X1_join_leaves_other_rooms (v : Variant) (c : string)
    (roomId : JsValue) (rooms : RoomStore) (room' : string) :
  roomId <> JString room' ->
  JsMap.get room' (store_of (handleJoinRoom v c roomId rooms))
  = JsMap.get room' rooms.
Proof.
  intros Hother. destruct (invalid_room_id roomId) eqn:E.
  - now rewrite join_invalid.
  - apply guard_passes in E. destruct E as [room [-> Hne]].
    rewrite join_eq by assumption.
    destruct (MAX_PARTICIPANTS <=? length (members room rooms))%nat;
      [reflexivity|].
    unfold store_of. cbn [fst snd]. rewrite get_set.
    destruct (String.eqb_spec room room') as [->|_];
      [contradiction | reflexivity].
Qed.

Lemma X1_join_leaves_other_rooms_witness :
  let rooms := rooms_after V1 [JoinRoom "A" (JString "x")] in
  let rooms1 := store_of (handleJoinRoom V1 "A" (JString "y") rooms) in
  JsMap.get "x" rooms1 = Some ["A"] /\ JsMap.get "y" rooms1 = Some ["A"].
Proof.
  intros rooms rooms1. split; [|reflexivity].
  unfold rooms1.
  rewrite (X1_join_leaves_other_rooms V1 "A" (JString "y") rooms "x");
    [reflexivity | discriminate].
Defined.

(** X2.  [cleanupClient] visits every room (lines 35, 208): after the
    disconnect of [c], each room's member set is the one before with [c]
    taken out, the others in their order, and [c] is a member of no room. *)
Theorem X2_disconnect_removes_everywhere (v : Variant) (evs : list Inbound)
    (c room : string) :
  let rooms := rooms_after v evs in
  let rooms1 := store_of (handleDisconnect v c rooms) in
  members room rooms1 = JsSet.delete c (members room rooms)
  /\ ~ In c (members room rooms1).
Proof.
  intros rooms rooms1.
  pose proof (well_formed_rooms_after v evs) as [Hnd _]. fold rooms in Hnd.
  assert (E : members room rooms1 = JsSet.delete c (members room rooms)).
  { unfold rooms1. rewrite disconnect_eq by assumption.
    now apply members_swept. }
  split; [exact E|]. rewrite E, In_delete. tauto.
Qed.


(** X4.  A second disconnect of the same connection finds nothing to clean:
    it leaves the store as the first one left it and emits nothing. *)
Theorem X4_disconnect_twice (v : Variant) (evs : list Inbound) (c : string) :
  let rooms1 := store_of (handleDisconnect v c (rooms_after v evs)) in
  handleDisconnect v c rooms1 = (Normal tt, rooms1, []).
Proof.
  intros rooms1. apply disconnect_absent. intros room ps.
  pose proof (well_formed_rooms_after v evs) as [Hnd _].
  unfold rooms1. rewrite disconnect_eq by assumption.
  apply swept_clean.
Qed.

Lemma delete_after_add c ps :
  ~ In c ps -> JsSet.delete c (JsSet.add c ps) = ps.
Proof.
  intros H. unfold JsSet.add, JsSet.delete. apply has_false in H as E.
  rewrite E, filter_app. simpl. rewrite String.eqb_refl. simpl.
  rewrite app_nil_r. now apply delete_absent.
Qed.

Lemma swept_after_join c room rooms :
  Forall (fun entry => snd entry <> []) rooms ->
  (forall room' ps, In (room', ps) rooms -> ~ In c ps) ->
  swept c (JsMap.set room (JsSet.add c (members room rooms)) rooms) = rooms.
Proof.
  induction rooms as [|[k q] rooms IH]; intros Hne Hnone.
  - unfold members. simpl. now rewrite String.eqb_refl.
  - inversion Hne as [|? ? Hq Hne']; subst. simpl in Hq.
    assert (Hcq : ~ In c q) by (apply (Hnone k); now left).
    assert (Hrest : forall room' ps, In (room', ps) rooms -> ~ In c ps)
      by (intros room' ps Hin; apply (Hnone room'); now right).
    unfold members. simpl. destruct (String.eqb_spec k room) as [->|Hk].
    + simpl. pose proof (In_add_self c q) as Hin. apply has_In in Hin.
      rewrite Hin, delete_after_add by assumption.
      destruct q as [|x q]; [contradiction|].
      f_equal. now apply swept_absent.
    + simpl. apply has_false in Hcq. rewrite Hcq. f_equal.
      now apply IH.
Qed.

(** X5.  Join, then disconnect: when [c] is in no room and joins a room that
    is not full, the disconnect of [c] puts the store back as it was before
    the join, the room deleted again if the join had created it. *)
Theorem X5_join_then_disconnect (v : Variant) (evs : list Inbound)
    (c room : string) :
  let rooms := rooms_after v evs in
  room <> "" -> length (members room rooms) < 2 ->
  (forall room', ~ In c (members room' rooms)) ->
  store_of (handleDisconnect v c
              (store_of (handleJoinRoom v c (JString room) rooms)))
  = rooms.
Proof.
  intros rooms Hroom Hlen Hnone.
  pose proof (well_formed_rooms_after v evs) as Hwf. fold rooms in Hwf.
  rewrite join_eq by assumption.
  destruct (Nat.leb_spec MAX_PARTICIPANTS (length (members room rooms)))
    as [Hfull|_]; [unfold MAX_PARTICIPANTS in Hfull; lia|].
  unfold store_of at 2. cbn [fst snd].
  rewrite disconnect_eq by now apply well_formed_join.
  unfold store_of. cbn [fst snd]. apply swept_after_join.
  - destruct Hwf as [_ Hall]. eapply Forall_impl; [|exact Hall].
    now intros entry [_ [_ [H _]]].
  - intros room' ps Hin. specialize (Hnone room').
    apply In_get in Hin; [|apply Hwf]. unfold members in Hnone.
    now rewrite Hin in Hnone.
Qed.

Lemma X5_join_then_disconnect_witness :
  let rooms := rooms_after V1 [JoinRoom "A" (JString "x")] in
  store_of (handleDisconnect V1 "B"
              (store_of (handleJoinRoom V1 "B" (JString "x") rooms)))
  = rooms
  /\ store_of (handleDisconnect V1 "B"
                 (store_of (handleJoinRoom V1 "B" (JString "y") rooms)))
     = rooms.
Proof.
  intros rooms.
  assert (Hnone : forall room', ~ In "B" (members room' rooms)).
  { intros room'. change rooms with [("x", ["A"])]. unfold members.
    cbn [JsMap.get]. destruct ("x" =? room'); [|intros []].
    intros [H|[]]. discriminate. }
  split.
  - apply (X5_join_then_disconnect V1 [JoinRoom "A" (JString "x")] "B" "x");
      [discriminate | simpl; lia | exact Hnone].
  - apply (X5_join_then_disconnect V1 [JoinRoom "A" (JString "x")] "B" "y");
      [discriminate | simpl; lia | exact Hnone].
Defined.

Lemma dispatch_same_store ev rooms :
  well_formed rooms ->
  store_of (dispatch V1 ev rooms) = store_of (dispatch V2 ev rooms).
Proof.
  intros Hwf. destruct ev as [c|c|c roomId|k c p]; cbn [dispatch].
  - reflexivity.
  - now rewrite !disconnect_eq by apply Hwf.
  - destruct (invalid_room_id roomId) eqn:E.
    + now rewrite !join_invalid.
    + apply guard_passes in E. destruct E as [room [-> Hne]].
      rewrite !join_eq by assumption.
      now destruct (MAX_PARTICIPANTS <=? length (members room rooms))%nat.
  - now rewrite !relay_eq.
Qed.

Lemma serve_same_store evs :
  forall rooms,
    well_formed rooms ->
    store_of (serve V1 evs rooms) = store_of (serve V2 evs rooms).
Proof.
  induction evs as [|ev evs IH]; intros rooms Hwf; [reflexivity|].
  destruct (dispatch_ok V1 ev rooms Hwf) as [rooms1 [out1 [E1 Hwf1]]].
  destruct (dispatch_ok V2 ev rooms Hwf) as [rooms2 [out2 [E2 _]]].
  pose proof (dispatch_same_store ev rooms Hwf) as E.
  rewrite E1, E2 in E. unfold store_of in E. cbn [fst snd] in E. subst rooms2.
  rewrite (serve_cons _ _ _ _ _ _ E1), (serve_cons _ _ _ _ _ _ E2).
  now apply IH.
Qed.

(** X6.  The two variants differ in what they emit, never in what they
    store: served the same inbound events, they end with the same rooms and
    the same members. *)
Theorem X6_variants_agree_on_store (evs : list Inbound) :
  rooms_after V1 evs = rooms_after V2 evs.
Proof. apply serve_same_store, well_formed_initial. Qed.

Lemma farewells_peers c rooms :
  Forall (fun e => exists p room ps,
                     e = farewell c p /\ p <> c
                     /\ In (room, ps) rooms /\ In c ps /\ In p ps)
         (farewells c rooms).
Proof.
  induction rooms as [|[k q] rooms IH]; simpl; [constructor|].
  apply Forall_app. split.
  - destruct (JsSet.has c q) eqn:E; [|constructor].
    apply has_In in E. apply Forall_forall. intros e He.
    apply in_map_iff in He. destruct He as [p [<- Hp]].
    apply In_delete in Hp. destruct Hp as [Hp Hne].
    exists p, k, q. repeat split; auto.
  - eapply Forall_impl; [|exact IH].
    intros e [p [room [ps [He [Hne [Hin H]]]]]].
    exists p, room, ps. repeat split; auto; tauto.
Qed.

(** X7.  The [peer-disconnected] events of variant 1 (lines 43-47) go to
    connections that shared a room with the one that left, never to the one
    that left; variant 2 emits nothing on a disconnect. *)
Theorem X7_notified_are_co_members (evs : list Inbound) (c : string) :
  Forall (fun e => exists p room,
                     e = farewell c p /\ p <> c
                     /\ In c (members room (rooms_after V1 evs))
                     /\ In p (members room (rooms_after V1 evs)))
         (emitted (handleDisconnect V1 c (rooms_after V1 evs)))
  /\ emitted (handleDisconnect V2 c (rooms_after V2 evs)) = [].
Proof.
  split.
  - pose proof (well_formed_rooms_after V1 evs) as [Hnd _].
    rewrite disconnect_eq by assumption. unfold emitted. cbn [snd goodbyes].
    eapply Forall_impl; [|apply farewells_peers].
    intros e [p [room [ps [He [Hne [Hin [Hc Hp]]]]]]].
    exists p, room. apply (In_get _ _ _ Hnd) in Hin.
    unfold members. rewrite Hin. auto.
  - pose proof (well_formed_rooms_after V2 evs) as [Hnd _].
    now rewrite disconnect_eq by assumption.
Qed.

Lemma serve_writers v evs :
  forall rooms,
    well_formed rooms ->
    store_of (serve v (filter writes_rooms evs) rooms)
    = store_of (serve v evs rooms).
Proof.
  induction evs as [|ev evs IH]; intros rooms Hwf; [reflexivity|].
  destruct (dispatch_ok v ev rooms Hwf) as [rooms1 [out1 [E1 Hwf1]]].
  rewrite (serve_cons _ _ _ _ _ _ E1).
  destruct ev as [c|c|c roomId|k c p]; cbn [filter writes_rooms].
  - cbn [dispatch] in E1. injection E1 as <- _. now apply IH.
  - rewrite (serve_cons _ _ _ _ _ _ E1). now apply IH.
  - rewrite (serve_cons _ _ _ _ _ _ E1). now apply IH.
  - cbn [dispatch] in E1. rewrite relay_eq in E1. injection E1 as <- _.
    now apply IH.
Qed.

(** X8.  Connects and relays never write [rooms]: taking them out of a
    sequence of inbound events changes nothing to the store it ends with. *)
Theorem X8_only_join_and_disconnect_write (v : Variant) (evs : list Inbound) :
  rooms_after v (filter writes_rooms evs) = rooms_after v evs.
Proof. apply serve_writers, well_formed_initial. Qed.

Lemma introductions_are_new_peer v c room ps :
  Forall (fun e => exists t data, e = Emit t "new-peer" data)
         (introductions v c room ps).
Proof.
  destruct v; simpl.
  - induction ps as [|p ps IH]; simpl; [constructor|].
    apply Forall_app. split; [|exact IH].
    destruct (negb (p =? c)); repeat constructor; eauto.
  - destruct (1 <? JsSet.size ps)%nat; repeat constructor; eauto.
Qed.

(** X9.  Every [join-room] gets one answer, never both: [room-joined] is
    sent to the caller exactly when the room id is a non-empty string and
    the room holds fewer than 2 members; a [room-error] is sent exactly when
    it is not, and then the store is left as it was. *)
Theorem X9_join_reply (v : Variant) (c : string) (roomId : JsValue)
    (rooms : RoomStore) :
  let result := handleJoinRoom v c roomId rooms in
  let accepted :=
    exists room, roomId = JString room /\ room <> ""
                 /\ length (members room rooms) < MAX_PARTICIPANTS in
  (In (Emit (ToClient c) "room-joined" (joined_data roomId)) (emitted result)
   <-> accepted)
  /\ ((exists message, In (room_error c message) (emitted result))
      <-> ~ accepted)
  /\ (~ accepted -> store_of result = rooms).
Proof.
  intros result accepted. unfold result.
  destruct (invalid_room_id roomId) eqn:E.
  - assert (Hno : ~ accepted).
    { intros [room [-> [Hne _]]].
      assert (H : invalid_room_id (JString room) = false)
        by (apply guard_passes; eauto).
      congruence. }
    rewrite join_invalid by assumption. unfold emitted, store_of. simpl.
    repeat split; try tauto.
    + intros [H|[]]. discriminate.
    + intros _. eexists. now left.
  - apply guard_passes in E. destruct E as [room [-> Hne]].
    rewrite join_eq by assumption.
    destruct (Nat.leb_spec MAX_PARTICIPANTS (length (members room rooms)))
      as [Hfull|Hfree]; unfold emitted, store_of; cbn [fst snd].
    + assert (Hno : ~ accepted).
      { intros [room' [[= <-] [_ Hlt]]]. lia. }
      repeat split; try tauto.
      * intros [H|[]]. discriminate.
      * intros _. eexists. now left.
    + assert (Hyes : accepted) by (exists room; auto).
      repeat split; try tauto.
      * intros _. right. now left.
      * intros [message [H|[H|H]]]; try discriminate.
        pose proof (introductions_are_new_peer v c room
                      (JsSet.add c (members room rooms))) as Hall.
        rewrite Forall_forall in Hall.
        destruct (Hall _ H) as [t [data Heq]]. discriminate.
Qed.

Lemma X9_join_reply_witness :
  let rooms :=
    rooms_after V1 [JoinRoom "A" (JString "x"); JoinRoom "B" (JString "x")] in
  store_of (handleJoinRoom V1 "C" (JString "x") rooms) = rooms
  /\ In (Emit (ToClient "C") "room-joined" (joined_data (JString "y")))
        (emitted (handleJoinRoom V1 "C" (JString "y") rooms)).
Proof.
  intros rooms. split.
  - apply (proj2 (proj2 (X9_join_reply V1 "C" (JString "x") rooms))).
    intros [room [[= <-] [_ Hlt]]]. simpl in Hlt. unfold MAX_PARTICIPANTS in Hlt.
    lia.
  - apply (proj1 (X9_join_reply V1 "C" (JString "y") rooms)).
    exists "y". repeat split; [discriminate | simpl; unfold MAX_PARTICIPANTS; lia].
Defined.

Lemma swept_without c rooms :
  Forall (fun entry => snd entry <> []) rooms ->
  swept c rooms = without c rooms.
Proof.
  unfold without. induction 1 as [|[k q] rooms Hq Hall IH]; [reflexivity|].
  simpl in *. rewrite IH. unfold JsSet.size.
  destruct (JsSet.has c q) eqn:E.
  - now destruct (JsSet.delete c q).
  - apply has_false, delete_absent in E. rewrite E.
    destruct q; [contradiction | reflexivity].
Qed.

Lemma without_twice c d rooms :
  without d (without c rooms)
  = filter (fun entry => negb (JsSet.size (snd entry) =? 0)%nat)
      (map (fun entry =>
              (fst entry, JsSet.delete d (JsSet.delete c (snd entry))))
           rooms).
Proof.
  unfold without. induction rooms as [|[k q] rooms IH]; [reflexivity|].
  simpl in *. unfold JsSet.size in *.
  destruct (JsSet.delete c q) as [|x stay]; simpl; [exact IH|].
  rewrite IH. reflexivity.
Qed.

Lemma delete_delete c d ps :
  JsSet.delete d (JsSet.delete c ps) = JsSet.delete c (JsSet.delete d ps).
Proof.
  unfold JsSet.delete. induction ps as [|x ps IH]; [reflexivity|].
  simpl. destruct (negb (x =? c)) eqn:Ec, (negb (x =? d)) eqn:Ed; simpl;
    rewrite ?Ec, ?Ed, IH; reflexivity.
Qed.

(** X10.  Disconnects commute on the store: whichever of two connections
    leaves first, the rooms and members that remain are the same. *)
Theorem X10_disconnects_commute (v : Variant) (evs : list Inbound)
    (c d : string) :
  let rooms := rooms_after v evs in
  store_of (handleDisconnect v d (store_of (handleDisconnect v c rooms)))
  = store_of (handleDisconnect v c (store_of (handleDisconnect v d rooms))).
Proof.
  intros rooms.
  pose proof (well_formed_rooms_after v evs) as Hwf. fold rooms in Hwf.
  assert (Hne : forall rooms0, well_formed rooms0 ->
                  Forall (fun entry => snd entry <> []) rooms0).
  { intros rooms0 [_ Hall]. eapply Forall_impl; [|exact Hall].
    now intros entry [_ [_ [H _]]]. }
  assert (H : forall a b,
             store_of (handleDisconnect v b
                         (store_of (handleDisconnect v a rooms)))
             = without b (without a rooms)).
  { intros a b. rewrite (disconnect_eq v a rooms) by apply Hwf.
    unfold store_of at 2. cbn [fst snd].
    pose proof (well_formed_swept a rooms Hwf) as Hwf'.
    rewrite disconnect_eq by apply Hwf'. unfold store_of. cbn [fst snd].
    rewrite (swept_without b) by now apply Hne.
    now rewrite (swept_without a) by now apply Hne. }
  rewrite !H, !without_twice. f_equal. apply map_ext.
  intros [k q]. simpl. now rewrite delete_delete.
Qed.

(** X11.  The guard of lines 56 and 222 keeps the empty string out of the
    keys of [rooms]: no room is ever stored under it. *)
Theorem X11_no_room_named_by_empty_string (v : Variant) (evs : list Inbound) :
  JsMap.get "" (rooms_after v evs) = None
  /\ Forall (fun entry => fst entry <> "") (rooms_after v evs).
Proof.
  pose proof (well_formed_rooms_after v evs) as Hwf. split.
  - destruct (JsMap.get "" (rooms_after v evs)) as [ps|] eqn:E;
      [|reflexivity].
    apply (room_ok_get _ _ _ Hwf) in E. destruct E as [E _]. now contradiction E.
  - destruct Hwf as [_ Hall]. eapply Forall_impl; [|exact Hall].
    now intros entry [H _].
Qed.

(** X12.  [validateRoomParticipant] (lines 168-171, 318-321) answers [true]
    exactly when the room id is a string that names a stored room with the
    client among its members; for a room that is not stored, and for a room
    id that is not a string, it answers [false].  It writes nothing. *)
Theorem X12_validate_room_participant (c : string) (roomId : JsValue)
    (rooms : RoomStore) :
  exists answer,
    validateRoomParticipant c roomId rooms = (Normal answer, rooms, [])
    /\ (answer = true
        <-> exists room ps,
              roomId = JString room /\ JsMap.get room rooms = Some ps
              /\ In c ps).
Proof.
  exists (is_participant c roomId rooms). split; [apply validate_eq|].
  unfold is_participant, members. split.
  - destruct roomId as [| | | |room|]; try discriminate.
    destruct (JsMap.get room rooms) as [ps|] eqn:E; [|discriminate].
    intros H. apply has_In in H. eauto.
  - intros [room [ps [-> [-> H]]]]. now apply has_In.
Qed.

Lemma X12_validate_room_participant_witness :
  validateRoomParticipant "A" (JString "x") [("x", ["B"; "A"])]
  = (Normal true, [("x", ["B"; "A"])], []).
Proof.
  destruct (X12_validate_room_participant "A" (JString "x")
              [("x", ["B"; "A"])]) as [answer [E [_ H]]].
  rewrite E. f_equal. f_equal. f_equal. apply H.
  exists "x", ["B"; "A"]. repeat split. simpl. now right; left.
Defined.

(** X13.  Join, then relay: after a [join-room] that succeeds, a relay by
    the caller that names the room it joined is forwarded. *)
Theorem X13_join_enables_relay (v : Variant) (k : RelayKind)
    (c room target : string) (data : JsValue) (rooms : RoomStore) :
  let rooms1 := store_of (handleJoinRoom v c (JString room) rooms) in
  let p := {| roomId := JString room; signal := data;
              targetPeerId := target |} in
  room <> "" -> length (members room rooms) < 2 ->
  handleRelay v k c p rooms1
  = (Normal tt, rooms1,
     [Emit (relay_target v c target) (event_name k)
           (signal_data (field_name k) data c)]).
Proof.
  intros rooms1 p Hroom Hlen. rewrite relay_eq.
  assert (E : is_participant c (roomId p) rooms1 = true).
  { unfold rooms1. rewrite join_eq by assumption.
    destruct (Nat.leb_spec MAX_PARTICIPANTS (length (members room rooms)))
      as [Hfull|_]; [unfold MAX_PARTICIPANTS in Hfull; lia|].
    unfold store_of, is_participant. cbn [fst snd roomId p].
    rewrite members_set. apply has_In, In_add_self. }
  now rewrite E.
Qed.

Lemma X13_join_enables_relay_witness :
  let rooms := rooms_after V2 [JoinRoom "A" (JString "x")] in
  let rooms1 := store_of (handleJoinRoom V2 "B" (JString "x") rooms) in
  let p := {| roomId := JString "x"; signal := JString "sdp";
              targetPeerId := "A" |} in
  handleRelay V2 Offer "B" p rooms1
  = (Normal tt, rooms1,
     [Emit (ClientTo "B" "A") "offer" (signal_data "offer" (JString "sdp") "B")]).
Proof.
  intros rooms rooms1 p.
  apply (X13_join_enables_relay V2 Offer "B" "x" "A" (JString "sdp") rooms);
    [discriminate | simpl; lia].
Defined.
